(** * Prime sieves of [main.cpp]: a shallow embedding and its properties

    The three algorithms of [main.cpp] ([simplest], [using_remove_if],
    [optimal_case]), the report of [time_and_print_result] and the run of
    [main] are embedded as executable Rocq functions.

    - [unsigned long] is a 64-bit machine integer: a [Z] in [0, 2^64) whose
      arithmetic wraps around ([Ulong.wrap]).
    - [vector<unsigned long>], [forward_list<unsigned long>] and
      [vector<bool>] are lists; an iterator is its offset from [begin()].
    - A call either returns, or runs into undefined behaviour
      (dereferencing an iterator that is out of range, [%] by zero), or
      loops for ever: [outcome].  Loops are run with fuel.
    - [cout] is the text written to it; [cout << n] writes [n] in decimal
      ([pretty]); the clock is the sequence of its readings.
    - Allocation is assumed to succeed (no [length_error], no [bad_alloc]);
      [l.reserve(count / 2)] changes a capacity only and is left out. *)

From Stdlib Require Import ZArith List Bool Lia Ascii String.
From stdpp Require Import base list list_numbers sorting strings pretty.

Open Scope Z_scope.

(** ** Outcomes of a call *)

Inductive outcome (A : Type) : Type :=
| Ret (a : A)     (* the call returns [a] *)
| Undefined       (* undefined behaviour was reached *)
| OutOfFuel.      (* the loop was still running when the fuel ran out *)

Arguments Ret {A} a.
Arguments Undefined {A}.
Arguments OutOfFuel {A}.

Definition bind {A B : Type} (m : outcome A) (k : A -> outcome B) : outcome B :=
  match m with
  | Ret a => k a
  | Undefined => Undefined
  | OutOfFuel => OutOfFuel
  end.

Notation "'let*' x ':=' m 'in' k" := (bind m (fun x => k))
  (at level 10, x name, m at level 100, k at level 200, only parsing).
Notation "'let*' ' p ':=' m 'in' k" := (bind m (fun x => match x with p => k end))
  (at level 10, p pattern, m at level 100, k at level 200, only parsing).

(** [while (cond) body], run for at most [fuel] tests of the condition. *)
Fixpoint while {S : Type} (fuel : nat) (cond : S -> bool)
    (body : S -> outcome S) (s : S) : outcome S :=
  match fuel with
  | O => OutOfFuel
  | Datatypes.S fuel' =>
      if cond s then let* s' := body s in while fuel' cond body s' else Ret s
  end.

(** ** [unsigned long] *)

Module Ulong.
Definition modulus : Z := 2 ^ 64.
Definition ULONG_MAX : Z := modulus - 1.
Definition wrap (z : Z) : Z := z mod modulus.
(* [a + b] *)
Definition add (a b : Z) : Z := wrap (a + b).
(* [a / b], for a non-zero constant [b] *)
Definition div (a b : Z) : Z := a / b.
(* [a % b]; undefined for [b == 0] *)
Definition rem (a b : Z) : outcome Z :=
  if b =? 0 then Undefined else Ret (a mod b).
(* conversion of a container size or iterator distance *)
Definition of_size (n : nat) : Z := wrap (Z.of_nat n).
End Ulong.

(** ** Containers and iterators *)

(* [*i] for an iterator at offset [i] *)
Definition deref {A : Type} (l : list A) (i : nat) : outcome A :=
  match l !! i with
  | Some x => Ret x
  | None => Undefined
  end.

(* [*i = x] *)
Definition store {A : Type} (l : list A) (i : nat) (x : A) : outcome (list A) :=
  if (i <? length l)%nat then Ret (<[i := x]> l) else Undefined.

(* [advance(i, n)] *)
Definition advance (i : nat) (n : Z) : nat := (i + Z.to_nat n)%nat.

(* [l.erase(v)]: the list without the element at [v]; the iterator returned
   is at the same offset [v]. *)
Definition erase {A : Type} (l : list A) (v : nat) : list A := delete v l.

(* [iota(first, last, value)] over a range of [len] elements *)
Fixpoint iota (len : nat) (value : Z) : list Z :=
  match len with
  | O => []
  | S len' => value :: iota len' (Ulong.add value 1)
  end.

(* [forward_list::remove_if(pred)] *)
Fixpoint remove_if (pred : Z -> outcome bool) (l : list Z) : outcome (list Z) :=
  match l with
  | [] => Ret []
  | x :: l' =>
      let* b := pred x in
      let* r := remove_if pred l' in
      Ret (if b : bool then r else x :: r)
  end.

(** ** The three algorithms *)

(* [(value > n) && (value % n == 0)], with the short circuit of [&&] *)
Definition is_multiple (n value : Z) : outcome bool :=
  if n <? value then let* r := Ulong.rem value n in Ret (r =? 0) else Ret false.

(* the [while (v != l.end())] loop of [simplest]; state: [(l, v)] *)
Definition erase_multiples (n : Z) (l : list Z) : outcome (list Z) :=
  let* '(l', _) := while (S (length l))
       (fun '(l, v) => negb (v =? length l)%nat)
       (fun '(l, v) =>
          let* x := deref l v in
          let* b := is_multiple n x in
          if b : bool then Ret (erase l v, v) else Ret (l, S v))
       (l, O) in
  Ret l'.

Definition simplest (count : Z) : outcome (list Z) :=
  let l := iota (Z.to_nat count) 1 in
  let* '(_, l) := while (S (Z.to_nat count))
       (fun '(n, _) => n <=? count)
       (fun '(n, l) => let* l' := erase_multiples n l in Ret (Ulong.add n 1, l'))
       (2, l) in
  Ret l.

Definition using_remove_if (count : Z) : outcome (list Z) :=
  let l := iota (Z.to_nat count) 1 in
  let* '(_, l) := while (S (Z.to_nat count))
       (fun '(n, _) => n <=? count)
       (fun '(n, l) => let* l' := remove_if (is_multiple n) l in Ret (Ulong.add n 1, l'))
       (2, l) in
  Ret l.

(* the [while (i < flags.end())] loop of [optimal_case]; state: [(flags, i)] *)
Definition flag_multiples (n : Z) (flags : list bool) (i : nat) : outcome (list bool) :=
  let* '(flags', _) := while (S (length flags))
       (fun '(flags, i) => (i <? length flags)%nat)
       (fun '(flags, i) =>
          let* flags' := store flags i false in Ret (flags', advance i n))
       (flags, i) in
  Ret flags'.

(* one round of the outer loop of [optimal_case], up to [++n] *)
Definition sieve_round (n : Z) (flags : list bool) : outcome (list bool) :=
  let i := advance O n in
  let* b := deref flags i in
  if negb b then Ret flags                     (* continue *)
  else flag_multiples n flags (advance i n).

(* the first loop of [optimal_case]: the flags after the sieve pass *)
Definition sieve_pass (count : Z) : outcome (list bool) :=
  let flags := replicate (Z.to_nat (Ulong.add count 1)) true in
  let* '(_, flags) := while (S (length flags))
       (fun '(n, flags) => n <=? Ulong.div (Ulong.of_size (length flags)) 2)
       (fun '(n, flags) => let* flags' := sieve_round n flags in Ret (Ulong.add n 1, flags'))
       (2, flags) in
  Ret flags.

(* the second loop of [optimal_case]: the offsets whose flag is set *)
Definition copy_offsets (flags : list bool) : outcome (list Z) :=
  let* '(_, l) := while (S (length flags))
       (fun '(i, _) => negb (i =? length flags)%nat)
       (fun '(i, l) =>
          if negb (i =? 0)%nat then
            let* b := deref flags i in
            Ret (S i, if b : bool then l ++ [Ulong.of_size i] else l)
          else Ret (S i, l))
       (O, []) in
  Ret l.

Definition optimal_case (count : Z) : outcome (list Z) :=
  let* flags := sieve_pass count in
  copy_offsets flags.

(** ** The algorithms together *)

(* the three algorithms, in the order in which [main] runs them *)
Definition algorithms : list (Z -> outcome (list Z)) :=
  [simplest; using_remove_if; optimal_case].

(** ** The timing report of [time_and_print_result] *)

Inductive time_unit : Type := ms | ns.

(* [duration_cast<D>(d).count()] for a duration of [d] ticks of
   [high_resolution_clock], one tick lasting [num / den] seconds, where [D]
   counts [per_second] units in a second: the quotient, truncated toward
   zero *)
Definition duration_cast (num den per_second d : Z) : Z :=
  Z.quot (d * (num * per_second)) den.

Definition milliseconds : Z := 1000.

Definition nanoseconds : Z := 1000000000.

(* what [time_and_print_result] prints *)
Record report : Type := {
  executed_in : Z * time_unit;  (* "  executed in <number> <unit>" *)
  result_size : Z;              (* "  result size: <number> primes" *)
  result_line : list Z          (* the elements, separated by ", " *)
}.

(* [time_and_print_result(test_function)], where the clock reads [t0] ticks
   before the call of [test_function] and [t1] ticks after it, and the call
   returns [result] *)
Definition time_and_print_result (num den t0 t1 : Z) (result : list Z) : report :=
  let d := t1 - t0 in
  {| executed_in :=
       if duration_cast num den milliseconds d >? 0
       then (duration_cast num den milliseconds d, ms)
       else (duration_cast num den nanoseconds d, ns);
     result_size := Z.of_nat (length result);
     result_line := result |}.

(* [d] ticks last at least one millisecond *)
Definition at_least_1ms (num den d : Z) : Prop := den <= d * num * 1000.

(** ** What [time_and_print_result] and [main] write to [cout] *)

(* [endl] *)
Definition endl : string := String "010"%char EmptyString.

(* [cout << "  "], the loop over [result] and [cout << endl]; state of the
   loop: the iterator [i] and the text written so far *)
Definition print_sequence (result : list Z) : outcome string :=
  let* '(_, out) := while (S (length result))
       (fun '(i, _) => negb (i =? length result)%nat)
       (fun '(i, out) =>
          let out := if negb (i =? 0)%nat then out +:+ ", " else out in
          let* x := deref result i in
          Ret (S i, out +:+ pretty x))
       (O, "  ") in
  Ret (out +:+ endl).

Definition unit_name (u : time_unit) : string :=
  match u with ms => " ms" | ns => " ns" end.

(* the three lines that [time_and_print_result] writes *)
Definition time_and_print_result_output (num den t0 t1 : Z) (result : list Z)
  : outcome string :=
  let r := time_and_print_result num den t0 t1 result in
  let* line := print_sequence (result_line r) in
  Ret ("  executed in " +:+ pretty (fst (executed_in r))
         +:+ unit_name (snd (executed_in r)) +:+ endl
       +:+ "  result size: " +:+ pretty (result_size r) +:+ " primes" +:+ endl
       +:+ line).

(* [main] for a bound [count]; [now k] is the reading of the [k]-th call of
   [high_resolution_clock::now()].  The value is the text written to [cout]
   and the exit status. *)
Definition main_with (count : Z) (num den : Z) (now : nat -> Z)
  : outcome (string * Z) :=
  let out0 := endl +:+ "Find all the primes less than " +:+ pretty count +:+ endl in
  let out1 := endl +:+ "Simplest first try:" +:+ endl in
  let* r1 := simplest count in
  let* rep1 := time_and_print_result_output num den (now 0%nat) (now 1%nat) r1 in
  let out2 := endl +:+ "Revised version with remove_if():" +:+ endl in
  let* r2 := using_remove_if count in
  let* rep2 := time_and_print_result_output num den (now 2%nat) (now 3%nat) r2 in
  let out3 :=
    endl +:+ "Optimal version using iterator arithmetic and flag/copy:" +:+ endl in
  let* r3 := optimal_case count in
  let* rep3 := time_and_print_result_output num den (now 4%nat) (now 5%nat) r3 in
  Ret (out0 +:+ out1 +:+ rep1 +:+ out2 +:+ rep2 +:+ out3 +:+ rep3, 0).

(* [const unsigned long count {50000}] *)
Definition main : Z -> Z -> (nat -> Z) -> outcome (string * Z) :=
  main_with 50000.

(** * Definitions for the statements of the properties *)

(* [(value > n) && (value % n == 0)] as a pure test, for [n != 0] *)
Definition multiple_of (n value : Z) : bool := (n <? value) && (value mod n =? 0).

(* the rounds for the divisors [2 .. m], as filters *)
Definition removal_rounds (m : Z) (l : list Z) : list Z :=
  fold_left (fun l d => List.filter (fun v => negb (multiple_of d v)) l)
            (seqZ 2 (m - 1)) l.

(* [v] is not a multiple [> d] of any divisor [d] in [2 .. m] *)
Definition survivor (m v : Z) : bool :=
  forallb (fun d => negb (multiple_of d v)) (seqZ 2 (m - 1)).

(* trial division by [d, d + 1, ...] while [d * d <= k] *)
Fixpoint trial_division (fuel : nat) (d k : Z) : bool :=
  match fuel with
  | O => true
  | S fuel' =>
      if k <? d * d then true
      else if k mod d =? 0 then false
      else trial_division fuel' (d + 1) k
  end.

Definition primeb (k : Z) : bool :=
  (2 <=? k) && trial_division (Z.to_nat (Z.sqrt k)) 2 k.

(* the primes in [2, N], ascending *)
Definition primes_upto (N : Z) : list Z := List.filter primeb (seqZ 2 (N - 1)).

(** ** The sieve pass, as the specification words it

    "For each candidate n from 2 up to floor((N+1)/2): if flag[n] is false,
    skip entirely; otherwise, starting at index 2n, mark flag[k] = false for
    every k = 2n, 3n, 4n, ... while k <= N." *)

(* k = 2n, 3n, 4n, ... while k <= N *)
Definition spec_multiples (n N : Z) : list Z :=
  (fun j => j * n) <$> seqZ 2 (N / n - 1).

Definition spec_clear (flag : list bool) (ks : list Z) : list bool :=
  fold_left (fun f k => <[Z.to_nat k := false]> f) ks flag.

Definition spec_round (N : Z) (flag : list bool) (n : Z) : list bool :=
  match flag !! Z.to_nat n with
  | Some false => flag
  | _ => spec_clear flag (spec_multiples n N)
  end.

Definition spec_pass (N : Z) : list bool :=
  fold_left (spec_round N) (seqZ 2 ((N + 1) / 2 - 1))
            (replicate (Z.to_nat (N + 1)) true).

(* the flag at offset [k], false beyond the end *)
Definition flag_at (flags : list bool) (k : Z) : bool :=
  default false (flags !! Z.to_nat k).


(** ** Texts, for the statements about the output *)

(* the three lines of a report: the timing [e], the number of elements of
   [l], and the elements of [l] separated by ", " *)
Definition report_lines (e : Z * time_unit) (l : list Z) : string :=
  "  executed in " +:+ pretty (fst e) +:+ unit_name (snd e) +:+ endl
  +:+ "  result size: " +:+ pretty (Z.of_nat (length l)) +:+ " primes" +:+ endl
  +:+ "  " +:+ String.concat ", " (pretty <$> l) +:+ endl.

(* the text of a run of [main]: the heading and the three labelled reports *)
Definition main_text (count : string) (rep1 rep2 rep3 : string) : string :=
  endl +:+ "Find all the primes less than " +:+ count +:+ endl
  +:+ endl +:+ "Simplest first try:" +:+ endl +:+ rep1
  +:+ endl +:+ "Revised version with remove_if():" +:+ endl +:+ rep2
  +:+ endl +:+ "Optimal version using iterator arithmetic and flag/copy:" +:+ endl
  +:+ rep3.

(* the three lines of a report, with the number of elements and the line of
   the elements given as text *)
Definition report_text (e : Z * time_unit) (size elements : string) : string :=
  "  executed in " +:+ pretty (fst e) +:+ unit_name (snd e) +:+ endl
  +:+ "  result size: " +:+ size +:+ " primes" +:+ endl
  +:+ elements.

(* the line of the elements of [l] *)
Definition elements_line (l : list Z) : string :=
  "  " +:+ String.concat ", " (pretty <$> l) +:+ endl.

(* no character of [s] is the comma of the separator or the newline of
   [endl] *)
Fixpoint plain (s : string) : Prop :=
  match s with
  | EmptyString => True
  | String c s' => c <> ","%char /\ c <> "010"%char /\ plain s'
  end.

(** * Evaluation on small inputs *)

Example simplest_30 :
  simplest 30 = Ret [1; 2; 3; 5; 7; 11; 13; 17; 19; 23; 29].
Proof. vm_compute. reflexivity. Qed.

Example using_remove_if_30 :
  using_remove_if 30 = Ret [1; 2; 3; 5; 7; 11; 13; 17; 19; 23; 29].
Proof. vm_compute. reflexivity. Qed.

Example optimal_case_30 :
  optimal_case 30 = Ret [1; 2; 3; 5; 7; 11; 13; 17; 19; 23; 29].
Proof. vm_compute. reflexivity. Qed.

(* At [ULONG_MAX] the size [count + 1] of the flags wraps around to 0. *)
Example sieve_pass_ULONG_MAX : sieve_pass Ulong.ULONG_MAX = Ret [].
Proof. reflexivity. Qed.

Example executed_in_ms :
  executed_in (time_and_print_result 1 1000000000 100 2500100 [1; 2; 3]) = (2, ms).
Proof. reflexivity. Qed.

Example executed_in_ns :
  executed_in (time_and_print_result 1 1000000000 100 1000099 [1; 2; 3])
  = (999999, ns).
Proof. reflexivity. Qed.

(** * Properties *)

(** ** Reasoning about loops *)

Section Loops.
Context {S : Type}.
Variables (cond : S -> bool) (body : S -> outcome S).

  (* Total correctness: an invariant and a variant that the body decreases. *)
Lemma while_rule (Inv : S -> Prop) (variant : S -> nat) :
    (forall s, Inv s -> cond s = true ->
       exists s', body s = Ret s' /\ Inv s' /\ (variant s' < variant s)%nat) ->
    forall fuel s, Inv s -> (variant s < fuel)%nat ->
    exists s', while fuel cond body s = Ret s' /\ Inv s' /\ cond s' = false.
  Proof.
    intros Hstep fuel. induction fuel as [|fuel IH]; intros s HI Hv; [lia|].
    simpl. destruct (cond s) eqn:Hc.
    - destruct (Hstep s HI Hc) as (s' & -> & HI' & Hlt). simpl.
      apply IH; [exact HI'|lia].
    - exists s. auto.
  Qed.

Lemma while_exit fuel s : cond s = false -> while (Datatypes.S fuel) cond body s = Ret s.
  Proof. intros H. simpl. now rewrite H. Qed.
End Loops.

(* Loops with the same condition and bodies that agree run alike. *)
Lemma while_ext {S : Type} (cond : S -> bool) (body1 body2 : S -> outcome S) :
  (forall s, body1 s = body2 s) ->
  forall fuel s, while fuel cond body1 s = while fuel cond body2 s.
Proof.
  intros Hb fuel. induction fuel as [|fuel IH]; intros s; [reflexivity|].
  simpl. destruct (cond s); [|reflexivity].
  rewrite Hb. destruct (body2 s); simpl; auto.
Qed.

(** ** [unsigned long] arithmetic without overflow *)

Lemma wrap_small z : 0 <= z <= Ulong.ULONG_MAX -> Ulong.wrap z = z.
Proof.
  unfold Ulong.wrap, Ulong.ULONG_MAX. intros H. apply Z.mod_small. lia.
Qed.

Lemma add_small a b : 0 <= a + b <= Ulong.ULONG_MAX -> Ulong.add a b = a + b.
Proof. apply wrap_small. Qed.

Lemma wrap_range z : 0 <= Ulong.wrap z <= Ulong.ULONG_MAX.
Proof.
  unfold Ulong.wrap, Ulong.ULONG_MAX.
  pose proof (Z.mod_pos_bound z Ulong.modulus ltac:(reflexivity)). lia.
Qed.

Lemma iota_seqZ len value :
  0 <= value -> value + Z.of_nat len <= Ulong.modulus ->
  iota len value = seqZ value (Z.of_nat len).
Proof.
  revert value. induction len as [|len IH]; intros value H0 H1.
  - reflexivity.
  - rewrite seqZ_cons by lia. simpl iota. f_equal.
    destruct len as [|len].
    + reflexivity.
    + rewrite add_small by (unfold Ulong.ULONG_MAX; lia).
      rewrite IH by lia. f_equal; lia.
Qed.

(** ** One removal round *)

Lemma is_multiple_pure n value :
  n <> 0 -> is_multiple n value = Ret (multiple_of n value).
Proof.
  intros Hn. unfold is_multiple, multiple_of, Ulong.rem.
  destruct (n <? value); [|reflexivity].
  destruct (Z.eqb_spec n 0); [contradiction|reflexivity].
Qed.

Lemma remove_if_filter n l :
  n <> 0 ->
  remove_if (is_multiple n) l = Ret (List.filter (fun v => negb (multiple_of n v)) l).
Proof.
  intros Hn. induction l as [|x l IH]; [reflexivity|].
  simpl. rewrite is_multiple_pure by assumption. simpl. rewrite IH. simpl.
  destruct (multiple_of n x); reflexivity.
Qed.

(* The erase loop, started at offset [length kept] of [kept ++ rest], leaves
   [kept] alone and removes from [rest] what [remove_if] removes. *)
Lemma erase_loop_remove_if n rest :
  forall fuel kept, (length rest < fuel)%nat ->
  while fuel
    (fun '(l, v) => negb (v =? length l)%nat)
    (fun '(l, v) =>
       let* x := deref l v in
       let* b := is_multiple n x in
       if b : bool then Ret (erase l v, v) else Ret (l, Datatypes.S v))
    (kept ++ rest, length kept)
  = let* r := remove_if (is_multiple n) rest in
    Ret (kept ++ r, length (kept ++ r)).
Proof.
  induction rest as [|x rest IH]; intros fuel kept Hf.
  - destruct fuel as [|fuel]; [simpl in Hf; lia|].
    rewrite while_exit; [simpl; now rewrite app_nil_r|].
    rewrite app_nil_r, Nat.eqb_refl. reflexivity.
  - destruct fuel as [|fuel]; [simpl in Hf; lia|].
    simpl in Hf. cbn [while].
    replace (length kept =? length (kept ++ x :: rest))%nat with false
      by (symmetry; apply Nat.eqb_neq; rewrite length_app; simpl; lia).
    cbn [negb]. unfold deref.
    rewrite list_lookup_middle by reflexivity. cbn [bind remove_if].
    destruct (is_multiple n x) as [[|]| |]; cbn [bind]; try reflexivity.
    + unfold erase. rewrite delete_middle. rewrite IH by lia.
      destruct (remove_if (is_multiple n) rest); reflexivity.
    + replace (kept ++ x :: rest) with ((kept ++ [x]) ++ rest)
        by (rewrite <- app_assoc; reflexivity).
      replace (Datatypes.S (length kept)) with (length (kept ++ [x]))
        by (rewrite length_app; simpl; lia).
      rewrite IH by lia.
      destruct (remove_if (is_multiple n) rest); cbn [bind]; try reflexivity.
      rewrite <- !app_assoc. reflexivity.
Qed.

Lemma erase_multiples_remove_if n l :
  erase_multiples n l = remove_if (is_multiple n) l.
Proof.
  unfold erase_multiples.
  pose proof (erase_loop_remove_if n l (Datatypes.S (length l)) []) as H.
  cbn [app length] in H. rewrite H by lia.
  destruct (remove_if (is_multiple n) l); reflexivity.
Qed.

Lemma using_remove_if_simplest count : using_remove_if count = simplest count.
Proof.
  unfold using_remove_if, simplest. cbv zeta. f_equal.
  apply while_ext. intros [n l]. now rewrite erase_multiples_remove_if.
Qed.

(** ** [for (auto n = lo; n <= bound; ++n)] without overflow *)

Section ForLoop.
Context {S : Type}.
Variables (bound : S -> Z) (round : Z -> S -> outcome S).

  (* [P k s]: the state is [s] when the round for [n = k] is about to start. *)
Lemma for_rule (P : Z -> S -> Prop) (lo hi : Z) :
    0 <= lo -> hi < Ulong.ULONG_MAX ->
    (forall k s, P k s -> bound s = hi) ->
    (forall k s, lo <= k <= hi -> P k s ->
       exists s', round k s = Ret s' /\ P (k + 1) s') ->
    forall fuel n s, lo <= n <= hi + 1 -> P n s ->
    (Z.to_nat (hi + 1 - n) < fuel)%nat ->
    exists s',
      while fuel (fun '(n, s) => n <=? bound s)
        (fun '(n, s) => let* s' := round n s in Ret (Ulong.add n 1, s'))
        (n, s) = Ret (hi + 1, s') /\ P (hi + 1) s'.
  Proof.
    intros Hlo Hhi Hbound Hround fuel n s Hn HP Hfuel.
    destruct (while_rule
                (fun '(n, s) => n <=? bound s)
                (fun '(n, s) => let* s' := round n s in Ret (Ulong.add n 1, s'))
                (fun '(n, s) => lo <= n <= hi + 1 /\ P n s)
                (fun '(n, _) => Z.to_nat (hi + 1 - n))) with (fuel := fuel) (s := (n, s))
      as ([n' s'] & Hrun & [Hn' HP'] & Hexit); auto.
    - intros [k t] [Hk HPk] Hc.
      rewrite (Hbound _ _ HPk) in Hc. apply Z.leb_le in Hc.
      destruct (Hround k t ltac:(lia) HPk) as (t' & -> & HP'). cbn [bind].
      rewrite add_small by lia.
      exists (k + 1, t'). repeat split; auto; lia.
    - rewrite (Hbound _ _ HP') in Hexit. apply Z.leb_gt in Hexit.
      assert (n' = hi + 1) as -> by lia. eauto.
  Qed.
End ForLoop.

(** ** The removal rounds of [simplest] and [using_remove_if] *)

Lemma filter_rounds (ds : list Z) : forall l : list Z,
  fold_left (fun l d => List.filter (fun v => negb (multiple_of d v)) l) ds l
  = List.filter (fun v => forallb (fun d => negb (multiple_of d v)) ds) l.
Proof.
  induction ds as [|d ds IH]; intros l; cbn [fold_left forallb].
  - induction l as [|x l IHl]; [reflexivity|]. simpl. now f_equal.
  - rewrite IH. induction l as [|x l IHl]; [reflexivity|].
    simpl. destruct (multiple_of d x); simpl; [assumption|].
    destruct (forallb _ ds); [f_equal|]; assumption.
Qed.

Lemma removal_rounds_survivor m l :
  removal_rounds m l = List.filter (survivor m) l.
Proof. apply filter_rounds. Qed.

Lemma removal_rounds_step m l :
  2 <= m ->
  removal_rounds m l
  = List.filter (fun v => negb (multiple_of m v)) (removal_rounds (m - 1) l).
Proof.
  intros Hm. unfold removal_rounds.
  replace (m - 1) with ((m - 2) + 1) at 1 by lia.
  rewrite seqZ_app by lia. rewrite fold_left_app.
  replace (m - 1 - 1) with (m - 2) by lia.
  replace (2 + (m - 2)) with m by lia. reflexivity.
Qed.

Lemma simplest_rounds count :
  0 <= count < Ulong.ULONG_MAX ->
  simplest count = Ret (removal_rounds count (seqZ 1 count)).
Proof.
  intros Hc. unfold simplest. cbv zeta.
  assert (Hm : count < Ulong.modulus - 1) by apply Hc.
  rewrite iota_seqZ by lia.
  rewrite Z2Nat.id by lia.
  destruct (Z.eq_dec count 0) as [->|Hne]; [reflexivity|].
  destruct (for_rule (fun _ : list Z => count) erase_multiples
              (fun k l => l = removal_rounds (k - 1) (seqZ 1 count)) 2 count)
    with (fuel := Datatypes.S (Z.to_nat count)) (n := 2) (s := seqZ 1 count)
    as (l & Hrun & ->); try lia; auto.
  - intros k l Hk ->. rewrite erase_multiples_remove_if, remove_if_filter by lia.
    eexists. split; [reflexivity|].
    replace (k + 1 - 1) with k by lia. symmetry. apply removal_rounds_step. lia.
  - cbv beta in Hrun. rewrite Hrun. cbn [bind].
    now replace (count + 1 - 1) with count by lia.
Qed.

Lemma simplest_survivors count :
  0 <= count < Ulong.ULONG_MAX ->
  simplest count = Ret (List.filter (survivor count) (seqZ 1 count)).
Proof. intros H. now rewrite simplest_rounds, removal_rounds_survivor. Qed.

(** ** Primes *)

Lemma multiple_of_spec d v :
  0 < d -> multiple_of d v = true <-> d < v /\ (d | v).
Proof.
  intros Hd. unfold multiple_of.
  rewrite andb_true_iff, Z.ltb_lt, Z.eqb_eq, Z.mod_divide by lia. reflexivity.
Qed.

Lemma survivor_spec m v :
  survivor m v = true <-> forall d, 2 <= d <= m -> d < v -> ~ (d | v).
Proof.
  unfold survivor. rewrite forallb_forall. split.
  - intros H d Hd Hlt Hdiv.
    specialize (H d). rewrite <- list_elem_of_In, elem_of_seqZ in H.
    specialize (H ltac:(lia)). apply negb_true_iff in H.
    assert (multiple_of d v = true) by (apply multiple_of_spec; [lia|auto]).
    congruence.
  - intros H d Hin. rewrite <- list_elem_of_In, elem_of_seqZ in Hin.
    apply negb_true_iff. destruct (multiple_of d v) eqn:E; [|reflexivity].
    apply multiple_of_spec in E; [|lia]. destruct E. exfalso. eapply H; eauto. lia.
Qed.

Lemma trial_division_spec fuel : forall d k,
  0 < d -> k < (d + Z.of_nat fuel) * (d + Z.of_nat fuel) ->
  trial_division fuel d k = true <->
  forall e, d <= e -> e * e <= k -> ~ (e | k).
Proof.
  induction fuel as [|fuel IH]; intros d k Hd Hk.
  - split; [|reflexivity]. intros _ e He Hee. nia.
  - cbn [trial_division]. destruct (Z.ltb_spec k (d * d)) as [Hlt|Hge].
    + split; [|reflexivity]. intros _ e He Hee. nia.
    + destruct (Z.eqb_spec (k mod d) 0) as [Hz|Hnz].
      * split; [discriminate|]. intros H. exfalso.
        apply (H d); [lia|lia|]. apply Z.mod_divide; [lia|assumption].
      * rewrite IH by lia. split; intros H e He Hee.
        -- destruct (Z.eq_dec e d) as [->|Hne].
           ++ intros Hdiv. apply Hnz. apply Z.mod_divide; [lia|assumption].
           ++ apply H; lia.
        -- apply H; lia.
Qed.

Lemma prime_sqrt k :
  Z.prime k <-> 2 <= k /\ forall e, 2 <= e -> e * e <= k -> ~ (e | k).
Proof.
  unfold Z.prime. split.
  - intros [H1 H]. split; [lia|]. intros e He Hee. apply H. nia.
  - intros [H2 H]. split; [lia|]. intros n Hn [q Hq].
    destruct (Z_le_gt_dec (n * n) k) as [Hle|Hgt].
    + apply (H n); [lia|lia|]. now exists q.
    + apply (H q); [nia|nia|]. exists n. lia.
Qed.

Lemma primeb_prime k : primeb k = true <-> Z.prime k.
Proof.
  rewrite prime_sqrt. unfold primeb. rewrite andb_true_iff, Z.leb_le.
  assert (Hs : 2 <= k ->
               k < (2 + Z.of_nat (Z.to_nat (Z.sqrt k)))
                   * (2 + Z.of_nat (Z.to_nat (Z.sqrt k)))).
  { intros H2. rewrite Z2Nat.id by apply Z.sqrt_nonneg.
    pose proof (Z.sqrt_spec k ltac:(lia)) as Hs. cbv zeta in Hs.
    pose proof (Z.sqrt_nonneg k). nia. }
  split; intros [H2 H]; (split; [assumption|]);
    apply (trial_division_spec _ 2 k ltac:(lia) (Hs H2)); assumption.
Qed.

(* A number in [2, N] survives the rounds for the divisors [2 .. m] exactly
   when it is prime, as soon as [m] reaches half of it. *)
Lemma survivor_prime m v :
  2 <= v -> v <= 2 * m + 1 -> survivor m v = primeb v.
Proof.
  intros Hv Hm. apply eq_true_iff_eq.
  rewrite survivor_spec, primeb_prime. unfold Z.prime. split.
  - intros H. split; [lia|]. intros n Hn [q Hq].
    assert (2 <= q) by nia.
    apply (H n); [nia|lia|]. now exists q.
  - intros [_ H] d Hd Hlt. apply H. lia.
Qed.

Lemma survivor_1 m : survivor m 1 = true.
Proof. apply survivor_spec. intros d Hd Hlt. lia. Qed.

Lemma primeb_1 : primeb 1 = false.
Proof. reflexivity. Qed.

(* the survivors among [1 .. N] *)
Lemma survivors_primes m N :
  1 <= N -> N <= 2 * m + 1 ->
  List.filter (survivor m) (seqZ 1 N) = 1 :: primes_upto N.
Proof.
  intros HN Hm. rewrite seqZ_cons by lia. cbn [List.filter].
  rewrite survivor_1. unfold primes_upto.
  replace (Z.succ 1) with 2 by lia. replace (Z.pred N) with (N - 1) by lia.
  f_equal. apply filter_ext_in. intros v Hv.
  rewrite <- list_elem_of_In, elem_of_seqZ in Hv.
  apply survivor_prime; lia.
Qed.

Lemma simplest_primes count :
  1 <= count < Ulong.ULONG_MAX ->
  simplest count = Ret (1 :: primes_upto count).
Proof.
  intros H. rewrite simplest_survivors by lia.
  now rewrite survivors_primes by lia.
Qed.

(** ** The sieve pass worded in the specification keeps the length *)

Lemma spec_clear_length ks : forall flag, length (spec_clear flag ks) = length flag.
Proof.
  induction ks as [|k ks IH]; intros flag; [reflexivity|].
  unfold spec_clear in *. cbn [fold_left]. now rewrite IH, length_insert.
Qed.

Lemma spec_round_length N flag n : length (spec_round N flag n) = length flag.
Proof.
  unfold spec_round.
  destruct (flag !! Z.to_nat n) as [[|]|]; auto using spec_clear_length.
Qed.

(** ** The sieve pass of [optimal_case] *)

(* The inner loop, entered at offset [j * n], clears the multiples
   [j * n, (j + 1) * n, ...] below the end of the flags. *)
Lemma flag_loop n N : 0 < n -> 0 <= N ->
  forall (m : nat) (j : Z) (fuel : nat) (flags : list bool),
  Z.of_nat (length flags) = N + 1 -> 0 <= j ->
  Z.of_nat m = Z.max 0 (N / n - j + 1) -> (m < fuel)%nat ->
  exists i,
    while fuel
      (fun '(flags, i) => (i <? length flags)%nat)
      (fun '(flags, i) =>
         let* flags' := store flags i false in Ret (flags', advance i n))
      (flags, Z.to_nat (j * n))
    = Ret (spec_clear flags ((fun j => j * n) <$> seqZ j (Z.of_nat m)), i).
Proof.
  intros Hn HN.
  pose proof (Z.div_mod N n ltac:(lia)) as Hdm.
  pose proof (Z.mod_pos_bound N n Hn) as Hmb.
  induction m as [|m IH]; intros j fuel flags Hlen Hj Hm Hfuel;
    (destruct fuel as [|fuel]; [lia|]).
  - exists (Z.to_nat (j * n)). rewrite while_exit; [reflexivity|].
    apply Nat.ltb_ge. nia.
  - assert (Hjn : j * n <= N) by nia.
    cbn [while].
    replace (Z.to_nat (j * n) <? length flags)%nat with true
      by (symmetry; apply Nat.ltb_lt; nia).
    unfold store at 1.
    replace (Z.to_nat (j * n) <? length flags)%nat with true
      by (symmetry; apply Nat.ltb_lt; nia).
    cbn [bind].
    replace (advance (Z.to_nat (j * n)) n) with (Z.to_nat ((j + 1) * n))
      by (unfold advance; nia).
    destruct (IH (j + 1) fuel (<[Z.to_nat (j * n) := false]> flags)) as (i & Hi);
      [rewrite length_insert; lia|lia|lia|lia|].
    exists i. rewrite Hi. rewrite (seqZ_cons j) by lia.
    cbn [fmap list_fmap]. unfold spec_clear. cbn [fold_left].
    replace (Z.pred (Z.of_nat (Datatypes.S m))) with (Z.of_nat m) by lia.
    reflexivity.
Qed.

Lemma sieve_round_spec N flags n :
  Z.of_nat (length flags) = N + 1 -> 2 <= n <= N ->
  sieve_round n flags = Ret (spec_round N flags n).
Proof.
  intros Hlen Hn. unfold sieve_round, spec_round. cbv zeta.
  change (advance 0 n) with (Z.to_nat n). unfold deref.
  destruct (flags !! Z.to_nat n) as [b|] eqn:Hb.
  2:{ apply lookup_ge_None in Hb. lia. }
  cbn [bind]. destruct b; cbn [negb]; [|reflexivity].
  unfold flag_multiples.
  replace (advance (Z.to_nat n) n) with (Z.to_nat (2 * n))
    by (unfold advance; lia).
  pose proof (Z.div_mod N n ltac:(lia)) as Hdm.
  pose proof (Z.mod_pos_bound N n ltac:(lia)) as Hmb.
  assert (1 <= N / n) by nia.
  assert (N / n <= N) by nia.
  destruct (flag_loop n N ltac:(lia) ltac:(lia) (Z.to_nat (N / n - 1)) 2
              (Datatypes.S (length flags)) flags) as (i & Hi); try lia.
  rewrite Hi. cbn [bind]. unfold spec_multiples.
  now rewrite Z2Nat.id by lia.
Qed.

Lemma sieve_pass_spec count :
  0 <= count < Ulong.ULONG_MAX ->
  sieve_pass count = Ret (spec_pass count).
Proof.
  intros Hc. unfold sieve_pass, spec_pass. cbv zeta.
  rewrite add_small by lia.
  destruct (Z.eq_dec count 0) as [->|Hne]; [reflexivity|].
  set (init := replicate (Z.to_nat (count + 1)) true).
  assert (Hinit : Z.of_nat (length init) = count + 1)
    by (unfold init; rewrite length_replicate; lia).
  pose proof (Z.div_mod (count + 1) 2 ltac:(lia)) as Hdm.
  pose proof (Z.mod_pos_bound (count + 1) 2 ltac:(lia)) as Hmb.
  destruct (for_rule
              (fun flags : list bool => Ulong.div (Ulong.of_size (length flags)) 2)
              sieve_round
              (fun k flags => Z.of_nat (length flags) = count + 1 /\
                 flags = fold_left (spec_round count) (seqZ 2 (k - 2)) init)
              2 ((count + 1) / 2))
    with (fuel := Datatypes.S (length init)) (n := 2) (s := init)
    as (flags & Hrun & _ & ->); try lia.
  - intros k flags [Hlen _]. unfold Ulong.div, Ulong.of_size.
    rewrite wrap_small by lia. now rewrite Hlen.
  - intros k flags Hk [Hlen ->].
    rewrite (sieve_round_spec count) by lia.
    eexists. split; [reflexivity|]. split.
    + rewrite spec_round_length. assumption.
    + replace (k + 1 - 2) with ((k - 2) + 1) by lia.
      rewrite seqZ_app by lia. rewrite fold_left_app.
      replace (2 + (k - 2)) with k by lia. reflexivity.
  - split; [assumption|]. reflexivity.
  - cbv beta in Hrun. rewrite Hrun. cbn [bind].
    now replace ((count + 1) / 2 + 1 - 2) with ((count + 1) / 2 - 1) by lia.
Qed.

(** ** The flags after the sieve pass *)

Lemma spec_clear_false ks : forall (flag : list bool) (i : nat),
  flag !! i = Some false -> spec_clear flag ks !! i = Some false.
Proof.
  induction ks as [|a ks IH]; intros flag i Hi; [assumption|].
  unfold spec_clear. cbn [fold_left]. apply IH.
  destruct (Nat.eq_dec (Z.to_nat a) i) as [->|Hne].
  - apply list_lookup_insert_eq. eapply lookup_lt_Some; eauto.
  - now rewrite list_lookup_insert_ne.
Qed.

Lemma spec_clear_hit ks : forall (flag : list bool) (k : Z),
  In k ks -> (Z.to_nat k < length flag)%nat ->
  spec_clear flag ks !! Z.to_nat k = Some false.
Proof.
  induction ks as [|a ks IH]; intros flag k Hin Hlt; [destruct Hin|].
  unfold spec_clear. cbn [fold_left]. destruct Hin as [->|Hin].
  - apply spec_clear_false. now apply list_lookup_insert_eq.
  - apply IH; [assumption|]. now rewrite length_insert.
Qed.

Lemma spec_clear_miss ks : forall (flag : list bool) (i : nat),
  (forall k, In k ks -> Z.to_nat k <> i) ->
  spec_clear flag ks !! i = flag !! i.
Proof.
  induction ks as [|a ks IH]; intros flag i Hmiss; [reflexivity|].
  unfold spec_clear. cbn [fold_left]. fold (spec_clear (<[Z.to_nat a:=false]> flag) ks).
  rewrite IH by (intros k Hk; apply Hmiss; now right).
  apply list_lookup_insert_ne. apply Hmiss. now left.
Qed.

Lemma In_spec_multiples n N k :
  1 <= n -> 0 <= N ->
  In k (spec_multiples n N) <-> exists j, 2 <= j /\ k = j * n /\ k <= N.
Proof.
  intros Hn HN. unfold spec_multiples.
  rewrite <- list_elem_of_In, list_elem_of_fmap.
  pose proof (Z.div_mod N n ltac:(lia)) as Hdm.
  pose proof (Z.mod_pos_bound N n ltac:(lia)) as Hmb.
  split.
  - intros (j & -> & Hj). apply elem_of_seqZ in Hj. exists j.
    split; [lia|]. split; [reflexivity|nia].
  - intros (j & Hj & -> & Hle). exists j. split; [reflexivity|].
    apply elem_of_seqZ. nia.
Qed.

Lemma spec_round_miss N (flag : list bool) n (i : nat) :
  (forall k, In k (spec_multiples n N) -> Z.to_nat k <> i) ->
  spec_round N flag n !! i = flag !! i.
Proof.
  intros Hmiss. unfold spec_round.
  destruct (flag !! Z.to_nat n) as [[|]|]; auto using spec_clear_miss.
Qed.

Lemma spec_multiples_multiple_of n N k :
  0 < n -> 0 <= k <= N ->
  In k (spec_multiples n N) <-> multiple_of n k = true.
Proof.
  intros Hn Hk. rewrite multiple_of_spec by assumption.
  unfold spec_multiples. rewrite <- list_elem_of_In, list_elem_of_fmap.
  pose proof (Z.div_mod N n ltac:(lia)) as Hdm.
  pose proof (Z.mod_pos_bound N n Hn) as Hmb.
  split.
  - intros (j & -> & Hj). apply elem_of_seqZ in Hj. split; [nia|].
    now exists j.
  - intros [Hlt [q ->]]. exists q. split; [reflexivity|].
    apply elem_of_seqZ. nia.
Qed.

Lemma survivor_step n k :
  2 <= n -> survivor n k = survivor (n - 1) k && negb (multiple_of n k).
Proof.
  intros Hn. unfold survivor.
  replace (n - 1) with ((n - 2) + 1) at 1 by lia.
  rewrite seqZ_app by lia. rewrite forallb_app.
  replace (n - 1 - 1) with (n - 2) by lia.
  replace (2 + (n - 2)) with n by lia.
  rewrite (seqZ_cons n 1) by lia. rewrite (seqZ_nil (Z.succ n)) by lia.
  cbn [forallb]. now rewrite andb_true_r.
Qed.

(* A multiple of a number that was cleared has been cleared as well. *)
Lemma survivor_of_multiple m n k :
  0 < n -> multiple_of n k = true ->
  survivor m k = true -> survivor m n = true.
Proof.
  intros Hn Hmul. apply multiple_of_spec in Hmul; [|assumption].
  destruct Hmul as [Hlt Hdiv]. rewrite !survivor_spec.
  intros H d Hd Hdn Hddiv. apply (H d); [assumption|lia|].
  eapply Z.divide_trans; eauto.
Qed.

Lemma spec_round_survivor N flag n :
  Z.of_nat (length flag) = N + 1 -> 2 <= n <= N ->
  (forall k, 0 <= k <= N -> flag !! Z.to_nat k = Some (survivor (n - 1) k)) ->
  forall k, 0 <= k <= N ->
  spec_round N flag n !! Z.to_nat k = Some (survivor n k).
Proof.
  intros Hlen Hn Hflag k Hk. unfold spec_round.
  rewrite (Hflag n) by lia. rewrite (survivor_step n k) by lia.
  destruct (multiple_of n k) eqn:Hmul; cbn [negb];
    rewrite ?andb_true_r, ?andb_false_r.
  - destruct (survivor (n - 1) n) eqn:Hsn.
    + apply spec_clear_hit; [|lia].
      apply spec_multiples_multiple_of; [lia|lia|assumption].
    + rewrite Hflag by lia. f_equal.
      destruct (survivor (n - 1) k) eqn:Hsk; [|reflexivity].
      rewrite (survivor_of_multiple (n - 1) n k) in Hsn; [discriminate|lia|auto..].
  - assert (Hmiss : spec_clear flag (spec_multiples n N) !! Z.to_nat k
                    = flag !! Z.to_nat k).
    { apply spec_clear_miss. intros k' Hin Heq.
      assert (Hk' : 0 <= k' <= N -> multiple_of n k' = true)
        by (intros; apply (spec_multiples_multiple_of n N); [lia|lia|assumption]).
      unfold spec_multiples in Hin.
      rewrite <- list_elem_of_In, list_elem_of_fmap in Hin.
      destruct Hin as (j & -> & Hj). apply elem_of_seqZ in Hj.
      pose proof (Z.div_mod N n ltac:(lia)) as Hdm.
      pose proof (Z.mod_pos_bound N n ltac:(lia)) as Hmb.
      assert (j * n = k) by nia. subst k.
      rewrite Hk' in Hmul by lia. discriminate. }
    destruct (survivor (n - 1) n); rewrite ?Hmiss; now apply Hflag.
Qed.

Lemma spec_rounds_survivor N (m : nat) :
  Z.of_nat m + 1 <= N ->
  let flag := fold_left (spec_round N) (seqZ 2 (Z.of_nat m))
                (replicate (Z.to_nat (N + 1)) true) in
  Z.of_nat (length flag) = N + 1 /\
  forall k, 0 <= k <= N -> flag !! Z.to_nat k = Some (survivor (Z.of_nat m + 1) k).
Proof.
  induction m as [|m IH]; intros Hm; cbv zeta.
  - cbn [Z.of_nat]. rewrite seqZ_nil by lia. cbn [fold_left]. split.
    + rewrite length_replicate. lia.
    + intros k Hk. rewrite lookup_replicate_2 by lia. reflexivity.
  - destruct IH as [Hlen Hflag]; [lia|].
    rewrite seqZ_S, fold_left_app. cbn [fold_left]. split.
    + now rewrite spec_round_length.
    + intros k Hk.
      replace (Z.of_nat (Datatypes.S m) + 1) with (2 + Z.of_nat m) by lia.
      apply spec_round_survivor; [assumption|lia| |assumption].
      intros k' Hk'. rewrite Hflag by assumption. do 2 f_equal. lia.
Qed.

Lemma spec_pass_length N : 1 <= N -> Z.of_nat (length (spec_pass N)) = N + 1.
Proof.
  intros HN. unfold spec_pass.
  pose proof (Z.div_mod (N + 1) 2 ltac:(lia)) as Hdm.
  pose proof (Z.mod_pos_bound (N + 1) 2 ltac:(lia)) as Hmb.
  destruct (spec_rounds_survivor N (Z.to_nat ((N + 1) / 2 - 1))) as [H _]; [lia|].
  rewrite Z2Nat.id in H by lia. exact H.
Qed.

Lemma spec_pass_survivor N k :
  1 <= N -> 0 <= k <= N ->
  spec_pass N !! Z.to_nat k = Some (survivor ((N + 1) / 2) k).
Proof.
  intros HN Hk. unfold spec_pass.
  pose proof (Z.div_mod (N + 1) 2 ltac:(lia)) as Hdm.
  pose proof (Z.mod_pos_bound (N + 1) 2 ltac:(lia)) as Hmb.
  destruct (spec_rounds_survivor N (Z.to_nat ((N + 1) / 2 - 1))) as [_ H]; [lia|].
  rewrite Z2Nat.id in H by lia. rewrite H by assumption.
  do 2 f_equal. lia.
Qed.

(** ** The copy loop of [optimal_case] *)

Lemma copy_offsets_filter flags :
  Z.of_nat (length flags) <= Ulong.modulus ->
  copy_offsets flags
  = Ret (List.filter (flag_at flags) (seqZ 1 (Z.of_nat (length flags) - 1))).
Proof.
  intros Hlen. unfold copy_offsets.
  destruct (while_rule
              (fun '(i, _) => negb (i =? length flags)%nat)
              (fun '(i, l) =>
                 if negb (i =? 0)%nat then
                   let* b := deref flags i in
                   Ret (Datatypes.S i, if b : bool then l ++ [Ulong.of_size i] else l)
                 else Ret (Datatypes.S i, l))
              (fun '(i, l) => (i <= length flags)%nat /\
                 l = List.filter (flag_at flags) (seqZ 1 (Z.of_nat i - 1)))
              (fun '(i, _) => (length flags - i)%nat))
    with (fuel := Datatypes.S (length flags)) (s := (O, @nil Z))
    as ([i l] & Hrun & [Hi ->] & Hexit).
  - intros [i l] [Hi ->] Hc.
    apply negb_true_iff, Nat.eqb_neq in Hc.
    destruct i as [|i].
    + cbn [Nat.eqb negb]. eexists. split; [reflexivity|].
      split; [split|]; [lia|reflexivity|lia].
    + cbn [Nat.eqb negb]. unfold deref.
      destruct (flags !! Datatypes.S i) as [b|] eqn:Hb.
      2:{ apply lookup_ge_None in Hb. lia. }
      cbn [bind]. eexists. split; [reflexivity|]. split; [split|]; [lia| |lia].
      replace (Z.of_nat (Datatypes.S (Datatypes.S i)) - 1)
        with (Z.of_nat (Datatypes.S i)) by lia.
      rewrite seqZ_S, List.filter_app.
      replace (Z.of_nat (Datatypes.S i) - 1) with (Z.of_nat i) by lia.
      f_equal. cbn [List.filter]. unfold flag_at.
      replace (Z.to_nat (1 + Z.of_nat i)) with (Datatypes.S i) by lia.
      rewrite Hb. cbn [default]. unfold Ulong.of_size.
      rewrite wrap_small by (unfold Ulong.ULONG_MAX; lia).
      replace (1 + Z.of_nat i) with (Z.of_nat (Datatypes.S i)) by lia.
      destruct b; [reflexivity|now rewrite app_nil_r].
  - split; [lia|reflexivity].
  - lia.
  - apply negb_false_iff, Nat.eqb_eq in Hexit. subst i.
    rewrite Hrun. reflexivity.
Qed.

(** ** The results of the three algorithms *)

Lemma optimal_case_primes count :
  1 <= count < Ulong.ULONG_MAX ->
  optimal_case count = Ret (1 :: primes_upto count).
Proof.
  intros Hc. unfold optimal_case.
  rewrite sieve_pass_spec by lia. cbn [bind].
  pose proof (spec_pass_length count ltac:(lia)) as Hlen.
  rewrite copy_offsets_filter by (unfold Ulong.ULONG_MAX in Hc; lia).
  rewrite Hlen. replace (count + 1 - 1) with count by lia.
  pose proof (Z.div_mod (count + 1) 2 ltac:(lia)) as Hdm.
  pose proof (Z.mod_pos_bound (count + 1) 2 ltac:(lia)) as Hmb.
  rewrite <- (survivors_primes ((count + 1) / 2)) by lia.
  f_equal. apply filter_ext_in. intros k Hk.
  rewrite <- list_elem_of_In, elem_of_seqZ in Hk.
  unfold flag_at. now rewrite spec_pass_survivor by lia.
Qed.

Lemma using_remove_if_primes count :
  1 <= count < Ulong.ULONG_MAX ->
  using_remove_if count = Ret (1 :: primes_upto count).
Proof. intros H. rewrite using_remove_if_simplest. now apply simplest_primes. Qed.

Lemma algorithms_primes count :
  1 <= count < Ulong.ULONG_MAX ->
  Forall (fun alg => alg count = Ret (1 :: primes_upto count)) algorithms.
Proof.
  intros H. unfold algorithms. repeat constructor;
    auto using simplest_primes, using_remove_if_primes, optimal_case_primes.
Qed.


(** ** The canonical primes up to a bound *)

Lemma seqZ_sorted (len : nat) : forall m, StronglySorted Z.lt (seqZ m (Z.of_nat len)).
Proof.
  induction len as [|len IH]; intros m.
  - rewrite seqZ_nil by lia. constructor.
  - rewrite seqZ_cons by lia.
    replace (Z.pred (Z.of_nat (Datatypes.S len))) with (Z.of_nat len) by lia.
    constructor; [apply IH|]. apply Forall_seqZ. intros; lia.
Qed.

Lemma filter_sorted (f : Z -> bool) (l : list Z) :
  StronglySorted Z.lt l -> StronglySorted Z.lt (List.filter f l).
Proof.
  induction 1 as [|a l Hs IH Ha]; cbn [List.filter]; [constructor|].
  destruct (f a); [|assumption]. constructor; [assumption|].
  rewrite List.Forall_forall in *. intros x Hx.
  apply filter_In in Hx. apply Ha, Hx.
Qed.




(* side conditions on a literal bound *)
Ltac in_range := unfold Ulong.ULONG_MAX, Ulong.modulus; lia.

(** * The claims *)









(** C6. For the bound 0 all three algorithms return the empty sequence, and
    for the bound 1 all three return the one-element sequence [1]. *)
Theorem results_for_0_and_1 :
  Forall (fun alg => alg 0 = Ret []) algorithms /\
  Forall (fun alg => alg 1 = Ret [1]) algorithms.
Proof. split; repeat constructor. Qed.

(** C7. For the shipped bound 50000 each of the three algorithms returns
    the value 1 followed by one and the same sequence of 5133 elements. *)
Theorem results_for_50000 :
  exists primes,
    Forall (fun alg => alg 50000 = Ret (1 :: primes)) algorithms /\
    Z.of_nat (length primes) = 5133.
Proof.
  exists (primes_upto 50000). split.
  - apply algorithms_primes. in_range.
  - unfold primes_upto.
    replace (50000 - 1) with (Z.of_nat (Z.to_nat 49999)) by lia.
    rewrite <- iota_seqZ by in_range.
    vm_cast_no_check (@eq_refl Z 5133).
Qed.

(** C3. The sieve pass of [optimal_case] is the pass worded in the
    specification: n runs from 2 up to floor((N+1)/2) inclusive; a round
    whose flag[n] is false changes nothing; a round whose flag[n] is true
    clears flag[k] for k = 2n, 3n, ... while k <= N, and nothing else, so
    that flag[n] stays as it is; and after the pass flag[k], for k in
    [1, N], is true exactly when k = 1 or k is prime. *)
Theorem sieve_pass_flags (count : Z) :
  0 <= count < Ulong.ULONG_MAX ->
  sieve_pass count = Ret (spec_pass count) /\
  (forall n k, 1 <= n ->
     In k (spec_multiples n count) <-> exists j, 2 <= j /\ k = j * n /\ k <= count) /\
  (forall flag n, flag !! Z.to_nat n = Some false -> spec_round count flag n = flag) /\
  (forall flag n k, flag !! Z.to_nat n = Some true ->
     In k (spec_multiples n count) -> (Z.to_nat k < length flag)%nat ->
     spec_round count flag n !! Z.to_nat k = Some false) /\
  (forall flag n (i : nat),
     (forall k, In k (spec_multiples n count) -> Z.to_nat k <> i) ->
     spec_round count flag n !! i = flag !! i) /\
  (forall flag n, 1 <= n ->
     spec_round count flag n !! Z.to_nat n = flag !! Z.to_nat n) /\
  (forall k, 1 <= k <= count ->
     spec_pass count !! Z.to_nat k = Some true <-> k = 1 \/ Z.prime k).
Proof.
  intros Hc. split; [now apply sieve_pass_spec|].
  split; [|split; [|split; [|split; [|split]]]].
  - intros n k Hn. apply In_spec_multiples; lia.
  - intros flag n Hn. unfold spec_round. now rewrite Hn.
  - intros flag n k Hn Hin Hlt. unfold spec_round. rewrite Hn.
    now apply spec_clear_hit.
  - intros flag n i Hmiss. now apply spec_round_miss.
  - intros flag n Hn. apply spec_round_miss. intros k Hin Heq.
    apply In_spec_multiples in Hin; [|lia|lia].
    destruct Hin as (j & Hj & -> & _). nia.
  - intros k Hk. rewrite spec_pass_survivor by lia.
    pose proof (Z.div_mod (count + 1) 2 ltac:(lia)) as Hdm.
    pose proof (Z.mod_pos_bound (count + 1) 2 ltac:(lia)) as Hmb.
    destruct (Z.eq_dec k 1) as [->|Hne].
    + rewrite survivor_1. split; auto.
    + rewrite survivor_prime by lia. split.
      * intros H. right. apply primeb_prime. congruence.
      * intros [H|H]; [contradiction|]. f_equal. now apply primeb_prime.
Qed.

Lemma sieve_pass_flags_witness :
  0 <= 30 < Ulong.ULONG_MAX /\
  (sieve_pass 30 = Ret (spec_pass 30) /\
   (forall n k, 1 <= n ->
      In k (spec_multiples n 30) <-> exists j, 2 <= j /\ k = j * n /\ k <= 30) /\
   (forall flag n, flag !! Z.to_nat n = Some false -> spec_round 30 flag n = flag) /\
   (forall flag n k, flag !! Z.to_nat n = Some true ->
      In k (spec_multiples n 30) -> (Z.to_nat k < length flag)%nat ->
      spec_round 30 flag n !! Z.to_nat k = Some false) /\
   (forall flag n (i : nat),
      (forall k, In k (spec_multiples n 30) -> Z.to_nat k <> i) ->
      spec_round 30 flag n !! i = flag !! i) /\
   (forall flag n, 1 <= n ->
      spec_round 30 flag n !! Z.to_nat n = flag !! Z.to_nat n) /\
   (forall k, 1 <= k <= 30 ->
      spec_pass 30 !! Z.to_nat k = Some true <-> k = 1 \/ Z.prime k)).
Proof. split; [in_range|apply (sieve_pass_flags 30); in_range]. Defined.

(** ** In-range accesses of [optimal_case] *)

(* A round is safe whatever the flags hold, as long as [n <= size / 2]. *)
Lemma sieve_round_returns (flags : list bool) (n : Z) :
  2 <= n -> 2 * n <= Z.of_nat (length flags) ->
  exists flags', sieve_round n flags = Ret flags' /\ length flags' = length flags.
Proof.
  intros Hn Hlen. exists (spec_round (Z.of_nat (length flags) - 1) flags n).
  split; [apply sieve_round_spec; lia|apply spec_round_length].
Qed.

Lemma optimal_case_returns (count : Z) : exists l, optimal_case count = Ret l.
Proof.
  pose proof (wrap_range (count + 1)) as Hr. fold (Ulong.add count 1) in Hr.
  destruct (Z.eq_dec (Ulong.add count 1) 0) as [H0|Hne].
  - exists []. unfold optimal_case, sieve_pass. rewrite H0. reflexivity.
  - assert (H : optimal_case count = optimal_case (Ulong.add count 1 - 1)).
    { unfold optimal_case, sieve_pass.
      replace (Ulong.add (Ulong.add count 1 - 1) 1) with (Ulong.add count 1);
        [reflexivity|].
      rewrite (add_small (Ulong.add count 1 - 1) 1) by lia. lia. }
    rewrite H. destruct (Z.eq_dec (Ulong.add count 1 - 1) 0) as [->|Hne'].
    + exists []. reflexivity.
    + eexists. apply optimal_case_primes. lia.
Qed.

(** C10. Every access to the flags in [optimal_case] is in range, for every
    bound: a round with 2 <= n <= size / 2 reads flag[n] and writes
    flag[2n], flag[3n], ... below the end without leaving the flags, whatever
    they hold, and the whole function returns (it never reaches undefined
    behaviour and its loops end). *)
Theorem optimal_case_in_bounds (count : Z) :
  (forall (flags : list bool) (n : Z),
     2 <= n -> 2 * n <= Z.of_nat (length flags) ->
     exists flags', sieve_round n flags = Ret flags' /\
                    length flags' = length flags) /\
  (exists flags l, sieve_pass count = Ret flags /\ copy_offsets flags = Ret l /\
                   optimal_case count = Ret l).
Proof.
  split; [exact sieve_round_returns|].
  destruct (optimal_case_returns count) as [l Hl].
  unfold optimal_case in *. destruct (sieve_pass count) as [flags| |];
    cbn [bind] in Hl; try discriminate.
  exists flags, l. auto.
Qed.

(** ** The timing report *)

Section Clock.
(* One tick of [high_resolution_clock] lasts [num / den] seconds. *)
Variables num den : Z.
Hypothesis num_pos : 0 < num.
Hypothesis den_pos : 0 < den.

Lemma duration_cast_pos per_second d :
  0 <= d -> 0 < per_second ->
  0 < duration_cast num den per_second d <-> den <= d * num * per_second.
Proof.
  intros Hd Hp. unfold duration_cast.
  assert (Ha : 0 <= d * (num * per_second)) by nia.
  pose proof (Z.quot_rem' (d * (num * per_second)) den) as Hqr.
  pose proof (Z.rem_bound_pos (d * (num * per_second)) den Ha den_pos) as Hrb.
  pose proof (Z.quot_pos (d * (num * per_second)) den Ha den_pos) as Hq.
  split; intros H; nia.
Qed.

(** C9. For a non-negative elapsed duration the report is in
    milliseconds exactly when the duration is at least one millisecond,
    and in nanoseconds otherwise; the number printed is the duration in
    that unit, truncated, and is not negative. *)
Theorem report_unit_threshold (t0 t1 : Z) (result : list Z) :
  t0 <= t1 ->
  let r := executed_in (time_and_print_result num den t0 t1 result) in
  (snd r = ms <-> at_least_1ms num den (t1 - t0)) /\
  (snd r = ns <-> ~ at_least_1ms num den (t1 - t0)) /\
  (at_least_1ms num den (t1 - t0) ->
     fst r = duration_cast num den milliseconds (t1 - t0)) /\
  (~ at_least_1ms num den (t1 - t0) ->
     fst r = duration_cast num den nanoseconds (t1 - t0)) /\
  0 <= fst r.
Proof.
  intros Ht. cbn [time_and_print_result executed_in]. cbv zeta.
  unfold at_least_1ms. set (d := t1 - t0). assert (Hd : 0 <= d) by lia.
  pose proof (duration_cast_pos milliseconds d Hd ltac:(reflexivity)) as Hms.
  unfold milliseconds in Hms at 2.
  assert (Hns : 0 <= duration_cast num den nanoseconds d).
  { unfold duration_cast, nanoseconds. apply Z.quot_pos; nia. }
  destruct (Z.gtb_spec (duration_cast num den milliseconds d) 0) as [Hgt|Hle];
    cbn [fst snd].
  - assert (den <= d * num * 1000) by (apply Hms; lia).
    repeat split; intros; try tauto; try discriminate; try lia.
  - assert (~ den <= d * num * 1000) by (rewrite <- Hms; lia).
    repeat split; intros; try tauto; try discriminate; try lia.
Qed.
End Clock.

Lemma report_unit_threshold_witness :
  0 < 1 /\ 0 < 1000000000 /\ 100 <= 2500100 /\
  let r := executed_in (time_and_print_result 1 1000000000 100 2500100 [1; 2; 3]) in
  (snd r = ms <-> at_least_1ms 1 1000000000 (2500100 - 100)) /\
  (snd r = ns <-> ~ at_least_1ms 1 1000000000 (2500100 - 100)) /\
  (at_least_1ms 1 1000000000 (2500100 - 100) ->
     fst r = duration_cast 1 1000000000 milliseconds (2500100 - 100)) /\
  (~ at_least_1ms 1 1000000000 (2500100 - 100) ->
     fst r = duration_cast 1 1000000000 nanoseconds (2500100 - 100)) /\
  0 <= fst r.
Proof.
  split; [lia|]. split; [lia|]. split; [lia|].
  apply (report_unit_threshold 1 1000000000); lia.
Defined.

(** * Further properties of the code *)

(** ** Removal rounds on arbitrary sequences *)

Lemma erase_multiples_filter n l :
  n <> 0 ->
  erase_multiples n l = Ret (List.filter (fun v => negb (multiple_of n v)) l).
Proof. intros Hn. now rewrite erase_multiples_remove_if, remove_if_filter. Qed.

Lemma filter_twice (f : Z -> bool) (l : list Z) :
  List.filter f (List.filter f l) = List.filter f l.
Proof.
  induction l as [|x l IH]; [reflexivity|]. cbn [List.filter].
  destruct (f x) eqn:E; cbn [List.filter]; rewrite ?E, IH; reflexivity.
Qed.

Lemma filter_swap (f g : Z -> bool) (l : list Z) :
  List.filter f (List.filter g l) = List.filter g (List.filter f l).
Proof.
  induction l as [|x l IH]; [reflexivity|]. cbn [List.filter].
  destruct (f x) eqn:Ef, (g x) eqn:Eg; cbn [List.filter];
    rewrite ?Ef, ?Eg, IH; reflexivity.
Qed.

Lemma filter_sublist (f : Z -> bool) (l : list Z) : sublist (List.filter f l) l.
Proof.
  induction l as [|x l IH]; [constructor|]. cbn [List.filter].
  destruct (f x); now constructor.
Qed.

(** X1. One round of [simplest] (and so of [using_remove_if]), run on any
    sequence with a divisor n >= 1, returns a subsequence of it: elements
    are only removed, and the order of the others is kept.  A second round
    with the same divisor removes nothing more, and the rounds for two
    divisors give the same sequence in either order. *)
Theorem removal_rounds_compose (n m : Z) (l : list Z) :
  1 <= n -> 1 <= m ->
  exists l1,
    erase_multiples n l = Ret l1 /\
    sublist l1 l /\
    (forall v, In v l1 <-> In v l /\ ~ (n < v /\ (n | v))) /\
    erase_multiples n l1 = Ret l1 /\
    (let* a := erase_multiples n l in erase_multiples m a)
    = (let* a := erase_multiples m l in erase_multiples n a).
Proof.
  intros Hn Hm. eexists. split; [apply erase_multiples_filter; lia|].
  split; [apply filter_sublist|]. split; [|split].
  - intros v. rewrite filter_In, negb_true_iff.
    rewrite <- (multiple_of_spec n v) by lia.
    destruct (multiple_of n v); intuition congruence.
  - rewrite erase_multiples_filter by lia. now rewrite filter_twice.
  - rewrite !erase_multiples_filter by lia. cbn [bind].
    rewrite !erase_multiples_filter by lia. now rewrite filter_swap.
Qed.

Lemma removal_rounds_compose_witness :
  1 <= 2 /\ 1 <= 3 /\
  exists l1,
    erase_multiples 2 [1; 2; 3; 4; 5; 6] = Ret l1 /\
    sublist l1 [1; 2; 3; 4; 5; 6] /\
    (forall v, In v l1 <-> In v [1; 2; 3; 4; 5; 6] /\ ~ (2 < v /\ (2 | v))) /\
    erase_multiples 2 l1 = Ret l1 /\
    (let* a := erase_multiples 2 [1; 2; 3; 4; 5; 6] in erase_multiples 3 a)
    = (let* a := erase_multiples 3 [1; 2; 3; 4; 5; 6] in erase_multiples 2 a).
Proof.
  split; [lia|]. split; [lia|].
  apply (removal_rounds_compose 2 3 [1; 2; 3; 4; 5; 6]); lia.
Defined.

(** ** The three results, compared *)









(** ** Rounds beyond the square root of the bound *)

Lemma filter_all (f : Z -> bool) (l : list Z) :
  (forall v, In v l -> f v = true) -> List.filter f l = l.
Proof.
  induction l as [|x l IH]; intros H; [reflexivity|]. cbn [List.filter].
  rewrite (H x) by now left. f_equal. apply IH. intros v Hv. apply H. now right.
Qed.

(* Below n * n, a multiple of n greater than n has a divisor in [2, n - 1]. *)
Lemma multiple_below_square n m v :
  2 <= n -> n - 1 <= m -> v < n * n -> multiple_of n v = true ->
  survivor m v = false.
Proof.
  intros Hn Hm Hv Hmul. apply multiple_of_spec in Hmul; [|lia].
  destruct Hmul as [Hlt [q Hq]].
  destruct (survivor m v) eqn:Hs; [|reflexivity]. exfalso.
  rewrite survivor_spec in Hs. apply (Hs q); [nia|nia|].
  exists n. lia.
Qed.

(** X6. In [simplest] and [using_remove_if] the rounds beyond the square
    root of the bound remove nothing: when n * n > count, the sequence left
    by the rounds 2 .. n - 1 comes out of the round for n unchanged. *)
Theorem late_round_removes_nothing (count n : Z) :
  0 <= count -> 2 <= n -> count < n * n ->
  let l := removal_rounds (n - 1) (seqZ 1 count) in
  erase_multiples n l = Ret l /\ remove_if (is_multiple n) l = Ret l.
Proof.
  intros Hc Hn Hsq l.
  assert (H : List.filter (fun v => negb (multiple_of n v)) l = l).
  { apply filter_all. intros v Hv. unfold l in Hv.
    rewrite removal_rounds_survivor in Hv. apply filter_In in Hv.
    destruct Hv as [Hin Hs]. rewrite <- list_elem_of_In, elem_of_seqZ in Hin.
    destruct (multiple_of n v) eqn:Hmul; [|reflexivity].
    rewrite (multiple_below_square n (n - 1) v
               ltac:(lia) ltac:(lia) ltac:(lia) Hmul) in Hs.
    discriminate. }
  split.
  - rewrite erase_multiples_filter by lia. now rewrite H.
  - rewrite remove_if_filter by lia. now rewrite H.
Qed.

Lemma late_round_removes_nothing_witness :
  0 <= 30 /\ 2 <= 6 /\ 30 < 6 * 6 /\
  let l := removal_rounds (6 - 1) (seqZ 1 30) in
  erase_multiples 6 l = Ret l /\ remove_if (is_multiple 6) l = Ret l.
Proof.
  split; [lia|]. split; [lia|]. split; [lia|].
  apply (late_round_removes_nothing 30 6); lia.
Defined.

Lemma spec_clear_id ks : forall flag : list bool,
  (forall k, In k ks -> flag !! Z.to_nat k = Some false) ->
  spec_clear flag ks = flag.
Proof.
  induction ks as [|a ks IH]; intros flag H; [reflexivity|].
  unfold spec_clear. cbn [fold_left].
  rewrite list_insert_id by (apply H; now left).
  apply IH. intros k Hk. apply H. now right.
Qed.

(** X7. In [optimal_case] too the rounds beyond the square root change
    nothing: when 2 <= n <= (count + 1) / 2 and n * n > count, the round for
    n returns the flags left by the rounds 2 .. n - 1 as they are (what it
    clears was cleared before). *)
Theorem late_round_clears_nothing (count n : Z) :
  2 <= n <= (count + 1) / 2 -> count < n * n ->
  let flags := fold_left (spec_round count) (seqZ 2 (n - 2))
                 (replicate (Z.to_nat (count + 1)) true) in
  sieve_round n flags = Ret flags.
Proof.
  intros Hn Hsq flags.
  pose proof (Z.div_mod (count + 1) 2 ltac:(lia)) as Hdm.
  pose proof (Z.mod_pos_bound (count + 1) 2 ltac:(lia)) as Hmb.
  destruct (spec_rounds_survivor count (Z.to_nat (n - 2))) as [Hlen Hflag]; [lia|].
  rewrite Z2Nat.id in Hlen, Hflag by lia. fold flags in Hlen, Hflag.
  rewrite (sieve_round_spec count) by lia. f_equal.
  unfold spec_round. destruct (flags !! Z.to_nat n) as [[|]|]; try reflexivity;
    apply spec_clear_id; intros k Hk;
    (assert (Hk' : 0 <= k <= count)
       by (apply In_spec_multiples in Hk; [|lia|lia];
           destruct Hk as (j & Hj & -> & Hle); nia));
    rewrite Hflag by lia; f_equal;
    apply (multiple_below_square n); try lia;
    apply (spec_multiples_multiple_of n count); (lia || assumption).
Qed.

Lemma late_round_clears_nothing_witness :
  2 <= 6 <= (30 + 1) / 2 /\ 30 < 6 * 6 /\
  let flags := fold_left (spec_round 30) (seqZ 2 (6 - 2))
                 (replicate (Z.to_nat (30 + 1)) true) in
  sieve_round 6 flags = Ret flags.
Proof.
  assert (H : 2 <= 6 <= (30 + 1) / 2) by (change ((30 + 1) / 2) with 15; lia).
  split; [exact H|]. split; [lia|].
  apply (late_round_clears_nothing 30 6); [exact H|lia].
Defined.

(** ** One more round *)



(** ** The copy loop on arbitrary flags *)

(** X5. Whatever the flags hold, the copy loop of [optimal_case] returns,
    in ascending order, exactly the offsets from 1 up to the last one whose
    flag is set; offset 0 is never copied, even when its flag is set. *)
Theorem copy_offsets_set_flags (flags : list bool) :
  Z.of_nat (length flags) <= Ulong.modulus ->
  exists l, copy_offsets flags = Ret l /\
    (forall k, In k l <->
       1 <= k < Z.of_nat (length flags) /\ flags !! Z.to_nat k = Some true) /\
    StronglySorted Z.lt l.
Proof.
  intros Hlen. eexists. split; [now apply copy_offsets_filter|]. split.
  - intros k. rewrite filter_In, <- list_elem_of_In, elem_of_seqZ.
    unfold flag_at. split.
    + intros [Hk Hf]. split; [lia|].
      destruct (flags !! Z.to_nat k) as [[|]|]; simpl in Hf; congruence.
    + intros [Hk Hf]. split; [lia|]. now rewrite Hf.
  - apply filter_sorted. destruct (length flags) as [|n].
    + rewrite seqZ_nil by lia. constructor.
    + replace (Z.of_nat (S n) - 1) with (Z.of_nat n) by lia. apply seqZ_sorted.
Qed.

Lemma copy_offsets_set_flags_witness :
  Z.of_nat (length [true; false; true; true]) <= Ulong.modulus /\
  exists l, copy_offsets [true; false; true; true] = Ret l /\
    (forall k, In k l <->
       1 <= k < Z.of_nat (length [true; false; true; true]) /\
       [true; false; true; true] !! Z.to_nat k = Some true) /\
    StronglySorted Z.lt l.
Proof.
  split; [unfold Ulong.modulus; simpl; lia|].
  apply (copy_offsets_set_flags [true; false; true; true]).
  unfold Ulong.modulus; simpl; lia.
Defined.

(** ** The number in the timing line *)

Section ClockRange.
Variables num den : Z.
Hypothesis num_pos : 0 < num.
Hypothesis den_pos : 0 < den.

(** X9. For a non-negative elapsed duration, a number printed with "ms" is
    at least 1 and is the nanosecond count divided by 1000000, rounded
    down; a number printed with "ns" is below 1000000. *)
Theorem report_number_range (t0 t1 : Z) (result : list Z) :
  t0 <= t1 ->
  let r := executed_in (time_and_print_result num den t0 t1 result) in
  let nanos := duration_cast num den nanoseconds (t1 - t0) in
  (snd r = ms -> 1 <= fst r /\ fst r * 1000000 <= nanos < (fst r + 1) * 1000000) /\
  (snd r = ns -> fst r = nanos /\ 0 <= nanos < 1000000).
Proof.
  intros Ht. cbn [time_and_print_result executed_in]. cbv zeta.
  set (d := t1 - t0). assert (Hd : 0 <= d) by lia.
  unfold duration_cast, milliseconds, nanoseconds.
  assert (Ha : 0 <= d * num) by nia.
  set (a := d * num) in *.
  replace (d * (num * 1000)) with (a * 1000) by (unfold a; ring).
  replace (d * (num * 1000000000)) with (a * 1000000000) by (unfold a; ring).
  pose proof (Z.quot_rem' (a * 1000) den) as Hq1.
  pose proof (Z.rem_bound_pos (a * 1000) den ltac:(lia) den_pos) as Hr1.
  pose proof (Z.quot_pos (a * 1000) den ltac:(lia) den_pos) as Hp1.
  pose proof (Z.quot_rem' (a * 1000000000) den) as Hq2.
  pose proof (Z.rem_bound_pos (a * 1000000000) den ltac:(lia) den_pos) as Hr2.
  pose proof (Z.quot_pos (a * 1000000000) den ltac:(lia) den_pos) as Hp2.
  set (q1 := Z.quot (a * 1000) den) in *.
  set (q2 := Z.quot (a * 1000000000) den) in *.
  destruct (Z.gtb_spec q1 0) as [Hgt|Hle]; cbn [fst snd]; split;
    intros Hu; try discriminate.
  - split; [lia|]. split; nia.
  - split; [reflexivity|]. split; [lia|]. nia.
Qed.
End ClockRange.

Lemma report_number_range_witness :
  0 < 1 /\ 0 < 1000000000 /\ 100 <= 2500100 /\
  let r := executed_in (time_and_print_result 1 1000000000 100 2500100 [1; 2; 3]) in
  let nanos := duration_cast 1 1000000000 nanoseconds (2500100 - 100) in
  (snd r = ms -> 1 <= fst r /\ fst r * 1000000 <= nanos < (fst r + 1) * 1000000) /\
  (snd r = ns -> fst r = nanos /\ 0 <= nanos < 1000000).
Proof.
  split; [lia|]. split; [lia|]. split; [lia|].
  apply (report_number_range 1 1000000000); lia.
Defined.

Section ClockBackwards.
Variables num den : Z.
Hypothesis num_pos : 0 < num.
Hypothesis den_pos : 0 < den.

(** X10. When the second clock reading is before the first one, the line is
    in nanoseconds and its number is zero or negative: a negative duration
    is never reported in milliseconds. *)
Theorem report_clock_backwards (t0 t1 : Z) (result : list Z) :
  t1 < t0 ->
  let r := executed_in (time_and_print_result num den t0 t1 result) in
  snd r = ns /\ fst r = duration_cast num den nanoseconds (t1 - t0) /\ fst r <= 0.
Proof.
  intros Ht. cbn [time_and_print_result executed_in]. cbv zeta.
  set (d := t1 - t0). assert (Hd : d < 0) by lia.
  assert (Hneg : forall k, 0 < k -> duration_cast num den k d <= 0).
  { intros k Hk. unfold duration_cast.
    replace (d * (num * k)) with (- ((- d) * (num * k))) by ring.
    rewrite Z.quot_opp_l by lia.
    pose proof (Z.quot_pos ((- d) * (num * k)) den ltac:(nia) den_pos). lia. }
  pose proof (Hneg milliseconds ltac:(reflexivity)) as Hms.
  pose proof (Hneg nanoseconds ltac:(reflexivity)) as Hns.
  destruct (Z.gtb_spec (duration_cast num den milliseconds d) 0) as [Hgt|Hle];
    [lia|]. cbn [fst snd]. auto.
Qed.
End ClockBackwards.

Lemma report_clock_backwards_witness :
  0 < 1 /\ 0 < 1000000000 /\ 100 < 2500100 /\
  let r := executed_in (time_and_print_result 1 1000000000 2500100 100 [1; 2; 3]) in
  snd r = ns /\
  fst r = duration_cast 1 1000000000 nanoseconds (100 - 2500100) /\ fst r <= 0.
Proof.
  split; [lia|]. split; [lia|]. split; [lia|].
  apply (report_clock_backwards 1 1000000000); lia.
Defined.

(** ** The text written to [cout] *)

Lemma append_assoc (s1 s2 s3 : string) : (s1 +:+ s2) +:+ s3 = s1 +:+ s2 +:+ s3.
Proof.
  induction s1 as [|c s1 IH]; [reflexivity|].
  change (String c ((s1 +:+ s2) +:+ s3) = String c (s1 +:+ s2 +:+ s3)).
  now rewrite IH.
Qed.

Lemma append_nil_r (s : string) : s +:+ "" = s.
Proof.
  induction s as [|c s IH]; [reflexivity|].
  change (String c (s +:+ "") = String c s). now rewrite IH.
Qed.

Lemma concat_snoc (sep : string) (l : list string) (x : string) :
  String.concat sep (l ++ [x])
  = match l with [] => x | _ => String.concat sep l +:+ sep +:+ x end.
Proof.
  induction l as [|a l IH]; [reflexivity|].
  cbn [app]. destruct l as [|b l].
  - reflexivity.
  - change (String.concat sep (a :: (b :: l) ++ [x]))
      with (a +:+ sep +:+ String.concat sep ((b :: l) ++ [x])).
    rewrite IH.
    change (String.concat sep (a :: b :: l))
      with (a +:+ sep +:+ String.concat sep (b :: l)).
    now rewrite !append_assoc.
Qed.

Lemma print_sequence_concat (result : list Z) :
  print_sequence result
  = Ret ("  " +:+ String.concat ", " (pretty <$> result) +:+ endl).
Proof.
  unfold print_sequence.
  destruct (while_rule
              (fun '(i, _) => negb (i =? length result)%nat)
              (fun '(i, out) =>
                 let out := if negb (i =? 0)%nat then out +:+ ", " else out in
                 let* x := deref result i in
                 Ret (Datatypes.S i, out +:+ pretty x))
              (fun '(i, out) => (i <= length result)%nat /\
                 out = "  " +:+ String.concat ", " (pretty <$> take i result))
              (fun '(i, _) => (length result - i)%nat))
    with (fuel := Datatypes.S (length result)) (s := (O, "  "))
    as ([i out] & Hrun & [Hi ->] & Hexit).
  - intros [i out] [Hi ->] Hc.
    apply negb_true_iff, Nat.eqb_neq in Hc. cbv zeta. unfold deref.
    destruct (result !! i) as [x|] eqn:Hx.
    2:{ apply lookup_ge_None in Hx. lia. }
    cbn [bind]. eexists. split; [reflexivity|]. split; [split|]; [lia| |lia].
    rewrite (take_S_r _ _ _ Hx), fmap_app. cbn [fmap list_fmap].
    rewrite concat_snoc. destruct i as [|i].
    + reflexivity.
    + cbn [Nat.eqb negb]. destruct result as [|y result]; [discriminate|].
      cbn [take fmap list_fmap]. now rewrite !append_assoc.
  - split; [lia|reflexivity].
  - lia.
  - apply negb_false_iff, Nat.eqb_eq in Hexit. subst i.
    cbv zeta in Hrun. rewrite Hrun. cbn [bind]. rewrite firstn_all. now rewrite append_assoc.
Qed.

Lemma time_and_print_result_output_eq (num den t0 t1 : Z) (result : list Z) :
  time_and_print_result_output num den t0 t1 result
  = Ret (report_lines (executed_in (time_and_print_result num den t0 t1 result))
                      result).
Proof.
  unfold time_and_print_result_output. cbv zeta.
  cbn [result_line result_size time_and_print_result].
  rewrite print_sequence_concat. cbn [bind]. reflexivity.
Qed.

(** X11. Whatever sequence the timed function returns, the empty one
    included, [time_and_print_result] writes its three lines: the timing,
    the number of elements, and the elements in order, separated by ", "
    with nothing before the first and nothing after the last. *)
Theorem time_and_print_result_lines (num den t0 t1 : Z) (result : list Z) :
  print_sequence result
  = Ret ("  " +:+ String.concat ", " (pretty <$> result) +:+ endl) /\
  time_and_print_result_output num den t0 t1 result
  = Ret (report_lines (executed_in (time_and_print_result num den t0 t1 result))
                      result).
Proof.
  split; [apply print_sequence_concat|apply time_and_print_result_output_eq].
Qed.



(** ** Reading the sequence back from its line *)

Lemma pretty_N_char_plain x : plain (String (pretty_N_char x) "").
Proof.
  unfold pretty_N_char. cbn [plain].
  repeat case_match; (split; [discriminate|split; [discriminate|exact I]]).
Qed.

Lemma pretty_N_go_plain x : forall s, plain s -> plain (pretty_N_go x s).
Proof.
  induction (N.lt_wf_0 x) as [x _ IH]; intros s Hs.
  assert (x = 0 \/ 0 < x)%N as [->|Hx] by lia.
  - now rewrite pretty_N_go_0.
  - rewrite pretty_N_go_step by assumption. apply IH.
    + now apply N.div_lt.
    + pose proof (pretty_N_char_plain (x `mod` 10)%N) as Hc.
      cbn [plain] in *. tauto.
Qed.

Lemma pretty_N_go_nonempty x : forall s, s <> "" -> pretty_N_go x s <> "".
Proof.
  induction (N.lt_wf_0 x) as [x _ IH]; intros s Hs.
  assert (x = 0 \/ 0 < x)%N as [->|Hx] by lia.
  - now rewrite pretty_N_go_0.
  - rewrite pretty_N_go_step by assumption. apply IH.
    + now apply N.div_lt.
    + discriminate.
Qed.

Lemma pretty_positive_plain (p : positive) :
  plain (pretty p) /\ pretty p <> "".
Proof.
  unfold pretty, pretty_positive, pretty, pretty_N.
  destruct (decide (N.pos p = 0%N)) as [H|_]; [discriminate|]. split.
  - apply pretty_N_go_plain. exact I.
  - rewrite pretty_N_go_step by lia. apply pretty_N_go_nonempty. discriminate.
Qed.

Lemma pretty_Z_plain (z : Z) : plain (pretty z) /\ pretty z <> "".
Proof.
  destruct z as [|p|p]; unfold pretty, pretty_Z.
  - split; [|discriminate]. cbn [plain]. repeat split; discriminate.
  - apply pretty_positive_plain.
  - destruct (pretty_positive_plain p) as [Hp _]. split; [|discriminate].
    change ("-" +:+ pretty p) with (String "-"%char (pretty p)).
    cbn [plain]. repeat split; try discriminate. exact Hp.
Qed.

(* A text splits in one way into a plain part and a rest that starts with a
   comma or a newline. *)
Lemma plain_split (a b x y : string) :
  plain a -> plain b ->
  (exists x', x = String ","%char x' \/ x = String "010"%char x') ->
  (exists y', y = String ","%char y' \/ y = String "010"%char y') ->
  a +:+ x = b +:+ y -> a = b /\ x = y.
Proof.
  revert b. induction a as [|c a IH]; intros [|d b] Ha Hb Hx Hy Heq.
  - auto.
  - change (x = String d (b +:+ y)) in Heq. cbn [plain] in Hb.
    destruct Hx as (x' & [->| ->]); injection Heq as <- _; tauto.
  - change (String c (a +:+ x) = y) in Heq. cbn [plain] in Ha.
    destruct Hy as (y' & [->| ->]); injection Heq as -> _; tauto.
  - change (String c (a +:+ x) = String d (b +:+ y)) in Heq.
    injection Heq as -> Heq. cbn [plain] in Ha, Hb.
    destruct (IH b) as [-> ->]; tauto.
Qed.

(* the elements and what follows them in the line *)
Lemma concat_cons_endl (a : string) (l : list string) :
  String.concat ", " (a :: l) +:+ endl
  = a +:+ match l with
          | [] => endl
          | _ => ", " +:+ String.concat ", " l +:+ endl
          end.
Proof.
  destruct l as [|b l]; [reflexivity|].
  change (String.concat ", " (a :: b :: l))
    with (a +:+ ", " +:+ String.concat ", " (b :: l)).
  now rewrite !append_assoc.
Qed.

Lemma concat_endl_inj (l1 : list string) : forall l2,
  Forall (fun s => plain s /\ s <> "") l1 ->
  Forall (fun s => plain s /\ s <> "") l2 ->
  String.concat ", " l1 +:+ endl = String.concat ", " l2 +:+ endl -> l1 = l2.
Proof.
  assert (Hstart : forall (a : string) l x',
            plain a -> a <> "" ->
            String "010"%char x' <> String.concat ", " (a :: l) +:+ endl).
  { intros a l x' Ha Hne Heq. rewrite concat_cons_endl in Heq.
    destruct a as [|c a]; [contradiction|]. cbn [plain] in Ha.
    change (String c a +:+ ?t) with (String c (a +:+ t)) in Heq.
    injection Heq as <- _. tauto. }
  assert (Htail : forall l : list string,
            exists x', match l with
                       | [] => endl
                       | _ => ", " +:+ String.concat ", " l +:+ endl
                       end = String ","%char x'
                    \/ match l with
                       | [] => endl
                       | _ => ", " +:+ String.concat ", " l +:+ endl
                       end = String "010"%char x').
  { intros [|b l]; eexists; [right|left]; reflexivity. }
  induction l1 as [|a l1 IH]; intros [|b l2] H1 H2 Heq.
  - reflexivity.
  - inversion_clear H2 as [|? ? [Hb Hne] _]. exfalso.
    apply (Hstart b l2 "" Hb Hne). exact Heq.
  - inversion_clear H1 as [|? ? [Ha Hne] _]. exfalso.
    apply (Hstart a l1 "" Ha Hne). symmetry. exact Heq.
  - inversion_clear H1 as [|? ? [Ha Hane] H1'].
    inversion_clear H2 as [|? ? [Hb Hbne] H2'].
    rewrite !concat_cons_endl in Heq.
    apply plain_split in Heq; auto. destruct Heq as [-> Heq]. f_equal.
    destruct l1 as [|a1 l1], l2 as [|b1 l2]; try reflexivity; try discriminate.
    apply IH; auto. now apply (inj (String.append ", ")) in Heq.
Qed.

(** X12. The line of the elements can be read back: two sequences that
    [time_and_print_result] prints as the same line are the same
    sequence. *)
Theorem print_sequence_inj (l1 l2 : list Z) :
  print_sequence l1 = print_sequence l2 -> l1 = l2.
Proof.
  rewrite !print_sequence_concat. intros Heq. injection Heq as Heq.
  apply concat_endl_inj in Heq.
  - now apply (inj (fmap pretty)) in Heq.
  - apply Forall_fmap, Forall_forall. intros z _. apply pretty_Z_plain.
  - apply Forall_fmap, Forall_forall. intros z _. apply pretty_Z_plain.
Qed.

Lemma print_sequence_inj_witness :
  print_sequence [1; 2; 3] = print_sequence [1; 2; 3] /\ [1; 2; 3] = [1; 2; 3].
Proof.
  split; [reflexivity|].
  apply (print_sequence_inj [1; 2; 3] [1; 2; 3]). reflexivity.
Defined.

(** ** The run of [main] *)

Lemma primes_upto_50000_length : Z.of_nat (length (primes_upto 50000)) = 5133.
Proof.
  unfold primes_upto.
  replace (50000 - 1) with (Z.of_nat (Z.to_nat 49999)) by lia.
  rewrite <- iota_seqZ by in_range.
  vm_cast_no_check (@eq_refl Z 5133).
Qed.

(** X14. Whatever the clock reads, [main] ends with exit status 0, its
    heading names the bound 50000, and each of its three reports gives the
    result size as 5134, one more than the number of primes up to 50000,
    followed by one and the same line of elements, those that [simplest]
    returns. *)
Theorem main_text_50000 (num den : Z) (now : nat -> Z) :
  exists l,
    simplest 50000 = Ret l /\
    main num den now
    = Ret (main_text "50000"
             (report_text (executed_in (time_and_print_result num den
                                          (now 0%nat) (now 1%nat) l))
                          "5134" (elements_line l))
             (report_text (executed_in (time_and_print_result num den
                                          (now 2%nat) (now 3%nat) l))
                          "5134" (elements_line l))
             (report_text (executed_in (time_and_print_result num den
                                          (now 4%nat) (now 5%nat) l))
                          "5134" (elements_line l)),
           0).
Proof.
  assert (Hr : 1 <= 50000 < Ulong.ULONG_MAX) by in_range.
  exists (1 :: primes_upto 50000). split; [now apply simplest_primes|].
  unfold main, main_with. cbv zeta.
  rewrite simplest_primes, using_remove_if_primes, optimal_case_primes by exact Hr.
  cbn [bind]. rewrite !time_and_print_result_output_eq. cbn [bind].
  unfold report_lines, report_text, elements_line, main_text.
  cbn [length]. rewrite Nat2Z.inj_succ, primes_upto_50000_length.
  change (pretty 50000) with "50000". change (pretty (Z.succ 5133)) with "5134".
  now rewrite !append_assoc.
Qed.
